(** * PairHMM driver: a shallow embedding of [src/main.cpp]

    The driver builds a two-precision [Pairhmm] object, picks the input
    source from the command line, and for each testcase of the reader
    times the computation and prints its results, one per line.

    Floating-point values are IEEE 754 binary floats as specified by
    [SpecFloat]: [float] is binary32 (24-bit significand, [emax] 128) and
    [double] is binary64 (53-bit significand, [emax] 1024).

    Effects (clock readings, engine runs, writes to [cout] and [cerr]) are
    recorded in an event trace threaded through a small state monad. *)

From Stdlib Require Import ZArith List String Ascii Bool Lia DecimalString.
From Stdlib Require Import Floats.SpecFloat.
Import ListNotations.
Local Open Scope string_scope.
Local Open Scope list_scope.

(** ** Floating-point formats *)

Module Fp.

Record format : Set := Format { prec : Z; emax : Z }.

(** C++ [float]. *)
Definition binary32 : format := Format 24 128.

(** C++ [double]. *)
Definition binary64 : format := Format 53 1024.

Definition zero : spec_float := S754_zero false.

Definition one (f : format) : spec_float := SFone (prec f) (emax f).

Definition add (f : format) : spec_float -> spec_float -> spec_float :=
  SFadd (prec f) (emax f).

Definition sub (f : format) : spec_float -> spec_float -> spec_float :=
  SFsub (prec f) (emax f).

Definition mul (f : format) : spec_float -> spec_float -> spec_float :=
  SFmul (prec f) (emax f).

Definition div (f : format) : spec_float -> spec_float -> spec_float :=
  SFdiv (prec f) (emax f).

Definition ltb : spec_float -> spec_float -> bool := SFltb.

Definition of_Z (f : format) (z : Z) : spec_float :=
  binary_normalize (prec f) (emax f) z 0 false.

(** [std::isfinite]. *)
Definition is_finite (x : spec_float) : bool :=
  match x with
  | S754_zero _ | S754_finite _ _ _ => true
  | S754_infinity _ | S754_nan => false
  end.

Definition is_zero (x : spec_float) : bool :=
  match x with
  | S754_zero _ => true
  | _ => false
  end.

(** [static_cast<double>] of a [float]: every binary32 value is a
    binary64 value; only the significand is re-aligned. *)
Definition widen (x : spec_float) : spec_float :=
  match x with
  | S754_finite s m e =>
      binary_normalize (prec binary64) (emax binary64) (cond_Zopp s (Zpos m)) e s
  | _ => x
  end.

End Fp.

(** ** Testcases *)

Definition base : Set := ascii.

(** Modelled from the spec: the record of [testcase.h], which is not among
    the sources.  One haplotype, one read, and four quality arrays indexed
    by read position. *)
Record Testcase : Set := mkTestcase {
  haplotype : list base;
  read : list base;
  base_quality : list Z;
  insertion_quality : list Z;
  deletion_quality : list Z;
  gap_continuation_quality : list Z
}.

(** Number of haplotype bases [H]. *)
Definition hap_len (tc : Testcase) : nat := List.length (haplotype tc).

(** Number of read bases [R]. *)
Definition read_len (tc : Testcase) : nat := List.length (read tc).

(** The six transition weights of one read position. *)
Record Weights : Set := mkWeights {
  match_emission : spec_float;
  mismatch_emission : spec_float;
  open_insertion : spec_float;
  continue_insertion : spec_float;
  open_deletion : spec_float;
  continue_deletion : spec_float
}.

(** [Constants<PRECISION>], the fixed engineering parameters of one
    precision: the value that fills row 0 and the underflow-detection
    threshold.  The header that fixes their values is not among the
    sources; they are taken as given. *)
Record Constants : Set := mkConstants {
  initial_constant : spec_float;
  underflow_threshold : spec_float
}.

(** What the driver takes from headers that are not among the sources:
    the Quality Model (weights of read position [i], counted from 1, at a
    given precision), the constants of both precisions, and the text that
    [operator<<] prints for a [double]. *)
Record Config : Type := mkConfig {
  quality_model : Fp.format -> Testcase -> nat -> Weights;
  constants_float : Constants;
  constants_double : Constants;
  show_double : spec_float -> string
}.

(** ** The Forward Engine *)

Module Forward.

(** One column of a DP row: the Match, Insertion and Deletion values. *)
Record cell : Set := Cell { cM : spec_float; cI : spec_float; cD : spec_float }.

Definition row : Set := list cell.

Section Engine.

Variable fmt : Fp.format.
Variable K : Constants.

Local Notation "x + y" := (Fp.add fmt x y).
Local Notation "x - y" := (Fp.sub fmt x y).
Local Notation "x * y" := (Fp.mul fmt x y).
Local Notation "1" := (Fp.one fmt).

Definition emission (w : Weights) (r h : base) : spec_float :=
  if Ascii.eqb r h then match_emission w else mismatch_emission w.

Definition match_value (w : Weights) (r h : base) (diag : cell) : spec_float :=
  emission w r h *
  (cM diag * (1 - open_insertion w - open_deletion w)
   + cI diag * (1 - continue_insertion w)
   + cD diag * (1 - continue_deletion w)).

Definition insertion_value (w : Weights) (up : cell) : spec_float :=
  open_insertion w * cM up + continue_insertion w * cI up.

Definition deletion_value (w : Weights) (left : cell) : spec_float :=
  open_deletion w * cM left + continue_deletion w * cD left.

(** Row 0 over columns 0..H: uniform mass on Match. *)
Definition row0 (H : nat) : row :=
  repeat (Cell (initial_constant K) Fp.zero Fp.zero) (S H).

(** Column 0 of a later row: Match and Deletion are zero, Insertion is
    seeded from the row above. *)
Definition cell0 (w : Weights) (up : cell) : cell :=
  Cell Fp.zero (insertion_value w up) Fp.zero.

(** Columns 1..H of the new row, left to right.  [diag] and [ups] come
    from the previous row, [left] is the cell just written. *)
Fixpoint sweep (w : Weights) (r : base) (hap : list base)
         (diag : cell) (ups : list cell) (left : cell) : list cell :=
  match hap, ups with
  | h :: hap', up :: ups' =>
      let c := Cell (match_value w r h diag)
                    (insertion_value w up)
                    (deletion_value w left) in
      c :: sweep w r hap' up ups' c
  | _, _ => []
  end.

Definition next_row (w : Weights) (r : base) (hap : list base) (prev : row) : row :=
  match prev with
  | [] => []
  | up0 :: ups => let c0 := cell0 w up0 in c0 :: sweep w r hap up0 ups c0
  end.

(** The rolling row after the read bases [rd], the first of which is read
    position [i]. *)
Fixpoint roll (weights : nat -> Weights) (hap : list base)
         (i : nat) (rd : list base) (prev : row) : row :=
  match rd with
  | [] => prev
  | r :: rd' => roll weights hap (S i) rd' (next_row (weights i) r hap prev)
  end.

(** Sum of Match + Insertion over columns 1..H, left to right. *)
Definition final_sum (last : row) : spec_float :=
  fold_left (fun acc c => acc + (cM c + cI c)) (tl last) Fp.zero.

(** Modelled from the spec: the Forward Engine of [pairhmm_impl.h], which
    is not among the sources.  A rolling-row evaluation of the three-state
    recurrence: only the previous row is kept, one row is written per
    read base, and the last row is summed over columns 1..H.  With no
    read base the last row is row 0. *)
Definition compute (weights : nat -> Weights) (tc : Testcase) : spec_float :=
  final_sum (roll weights (haplotype tc) 1 (read tc) (row0 (hap_len tc))).

End Engine.

End Forward.

(** ** The recurrence as the specification words it *)

Module Recurrence.

Section Matrices.

Variable fmt : Fp.format.
Variable K : Constants.
Variable weights : nat -> Weights.
Variable tc : Testcase.

Local Notation "x + y" := (Fp.add fmt x y).
Local Notation "x - y" := (Fp.sub fmt x y).
Local Notation "x * y" := (Fp.mul fmt x y).
Local Notation "1" := (Fp.one fmt).

(** [read[i]], positions counted from 1. *)
Definition read_at (i : nat) : base := nth (pred i) (read tc) "000"%char.

(** [haplotype[j]], positions counted from 1. *)
Definition hap_at (j : nat) : base := nth (pred j) (haplotype tc) "000"%char.

(** [emission(i, read[i], haplotype[j])]. *)
Definition emission (i j : nat) : spec_float :=
  if Ascii.eqb (read_at i) (hap_at j)
  then match_emission (weights i) else mismatch_emission (weights i).

(** Three full matrices [M], [I], [D] indexed by read position [i] in
    0..R and haplotype position [j] in 0..H solve the recurrence when
    they meet the boundary policy and the three equations. *)
Record solves (M I D : nat -> nat -> spec_float) : Prop := Solves {
  row0_M : forall j, j <= hap_len tc -> M 0 j = initial_constant K;
  row0_I : forall j, j <= hap_len tc -> I 0 j = Fp.zero;
  row0_D : forall j, j <= hap_len tc -> D 0 j = Fp.zero;
  col0_M : forall i, 1 <= i <= read_len tc -> M i 0 = Fp.zero;
  col0_D : forall i, 1 <= i <= read_len tc -> D i 0 = Fp.zero;
  eq_I : forall i j, 1 <= i <= read_len tc -> j <= hap_len tc ->
    I i j = open_insertion (weights i) * M (pred i) j
            + continue_insertion (weights i) * I (pred i) j;
  eq_M : forall i j, 1 <= i <= read_len tc -> 1 <= j <= hap_len tc ->
    M i j = emission i j *
            (M (pred i) (pred j)
               * (1 - open_insertion (weights i) - open_deletion (weights i))
             + I (pred i) (pred j) * (1 - continue_insertion (weights i))
             + D (pred i) (pred j) * (1 - continue_deletion (weights i)));
  eq_D : forall i j, 1 <= i <= read_len tc -> 1 <= j <= hap_len tc ->
    D i j = open_deletion (weights i) * M i (pred j)
            + continue_deletion (weights i) * D i (pred j)
}.

(** Sum over [j = 1..H] of [M[R][j] + I[R][j]], by increasing [j]. *)
Definition total (M I : nat -> nat -> spec_float) : spec_float :=
  fold_left (fun acc j => acc + (M (read_len tc) j + I (read_len tc) j))
            (seq 1 (hap_len tc)) Fp.zero.

(** The matrices computed entry by entry, each entry from the entries the
    equations name. *)
Fixpoint entry (i : nat) : nat -> Forward.cell :=
  match i with
  | O => fun _ => Forward.Cell (initial_constant K) Fp.zero Fp.zero
  | S i' =>
      fix column (j : nat) : Forward.cell :=
        match j with
        | O =>
            Forward.Cell Fp.zero
              (open_insertion (weights i) * Forward.cM (entry i' 0)
               + continue_insertion (weights i) * Forward.cI (entry i' 0))
              Fp.zero
        | S j' =>
            Forward.Cell
              (emission i j *
               (Forward.cM (entry i' j')
                  * (1 - open_insertion (weights i) - open_deletion (weights i))
                + Forward.cI (entry i' j') * (1 - continue_insertion (weights i))
                + Forward.cD (entry i' j') * (1 - continue_deletion (weights i))))
              (open_insertion (weights i) * Forward.cM (entry i' j)
               + continue_insertion (weights i) * Forward.cI (entry i' j))
              (open_deletion (weights i) * Forward.cM (column j')
               + continue_deletion (weights i) * Forward.cD (column j'))
        end
  end.

(** Column [j] of row [i] of three matrices, as one cell. *)
Definition cell_of (Mx Ix Dx : nat -> nat -> spec_float) (i j : nat) : Forward.cell :=
  Forward.Cell (Mx i j) (Ix i j) (Dx i j).

(** Row [i] of three matrices over columns 0..H. *)
Definition row_of (Mx Ix Dx : nat -> nat -> spec_float) (i : nat) : Forward.row :=
  map (cell_of Mx Ix Dx i) (seq 0 (S (hap_len tc))).

Definition M (i j : nat) : spec_float := Forward.cM (entry i j).

Definition I (i j : nat) : spec_float := Forward.cI (entry i j).

Definition D (i j : nat) : spec_float := Forward.cD (entry i j).

End Matrices.

End Recurrence.

(** ** Effects: the event trace and the clock *)

Inductive precision : Set := Reduced | Full.

Inductive event : Set :=
| EvFromFile (path : string)
| EvClock (t : spec_float)
| EvEngine (p : precision) (tc : Testcase)
| EvStdout (text : string)
| EvStderr (text : string).

(** What the run has done so far, and how often it has read the clock. *)
Record World : Set := mkWorld {
  trace : list event;
  ticks : nat
}.

Definition start_world : World := mkWorld [] 0.

(** What the run finds outside the program: the testcases of the reader's
    default source, the testcases of each named file, and the clock (its
    n-th reading, in milliseconds). *)
Record Env : Type := mkEnv {
  default_input : list Testcase;
  file_input : string -> list Testcase;
  now : nat -> spec_float
}.

Definition IO (A : Type) : Type := World -> A * World.

Definition ret {A : Type} (a : A) : IO A := fun w => (a, w).

Definition bind {A B : Type} (m : IO A) (k : A -> IO B) : IO B :=
  fun w => let (a, w') := m w in k a w'.

Declare Scope io_scope.
Delimit Scope io_scope with io.

Notation "x <- m ;; k" := (bind m (fun x => k))
  (at level 61, m at next level, right associativity) : io_scope.
Notation "m ;; k" := (bind m (fun _ => k))
  (at level 61, right associativity) : io_scope.

Local Open Scope io_scope.

Definition emit (e : event) : IO unit :=
  fun w => (tt, mkWorld (trace w ++ [e]) (ticks w)).

Definition read_clock (env : Env) : IO spec_float :=
  fun w => let t := now env (ticks w) in
           (t, mkWorld (trace w ++ [EvClock t]) (S (ticks w))).

(** A range-based [for] over a finite sequence, threading the variables
    the body updates. *)
Fixpoint for_each {A S : Type} (xs : list A) (body : A -> S -> IO S) (s : S) : IO S :=
  match xs with
  | [] => ret s
  | x :: xs' => s' <- body x s ;; for_each xs' body s'
  end.

(** [std::endl]: a newline. *)
Definition endl : string := String "010"%char EmptyString.

(** ** The Precision Dispatcher *)

Module Pairhmm.

Definition format_of (p : precision) : Fp.format :=
  match p with
  | Reduced => Fp.binary32
  | Full => Fp.binary64
  end.

Definition constants_of (cfg : Config) (p : precision) : Constants :=
  match p with
  | Reduced => constants_float cfg
  | Full => constants_double cfg
  end.

(** [PairhmmImpl<PRECISION, ...>]: the Forward Engine at one precision. *)
Definition engine (cfg : Config) (p : precision) (tc : Testcase) : spec_float :=
  Forward.compute (format_of p) (constants_of cfg p)
                  (quality_model cfg (format_of p) tc) tc.

Definition run_engine (cfg : Config) (p : precision) (tc : Testcase) : IO spec_float :=
  emit (EvEngine p tc) ;; ret (engine cfg p tc).

(** The reduced-precision result cannot be trusted: it is non-finite,
    zero, or below the underflow-detection threshold. *)
Definition needs_fallback (cfg : Config) (r : spec_float) : bool :=
  negb (Fp.is_finite r) || Fp.is_zero r
  || Fp.ltb r (underflow_threshold (constants_float cfg)).

(** Modelled from the spec: the Precision Dispatcher of [pairhmm.h], which
    is not among the sources.  The reduced-precision engine runs first;
    when its result cannot be trusted the full-precision engine runs on
    the same testcase and its result is used instead. *)
Definition dispatch (cfg : Config) (tc : Testcase) : IO spec_float :=
  r <- run_engine cfg Reduced tc ;;
  if needs_fallback cfg r then run_engine cfg Full tc else ret (Fp.widen r).

(** Modelled from the spec: [Pairhmm::calculate] of [pairhmm.h], which is
    not among the sources.  The range the driver iterates over holds the
    one scalar the dispatcher returns for the testcase. *)
Definition calculate (cfg : Config) (tc : Testcase) : IO (list spec_float) :=
  x <- dispatch cfg tc ;; ret [x].

End Pairhmm.

(** ** The stopwatch *)

Module Chronos.

Record t : Set := mk { start : spec_float }.

(** Modelled from the spec: the timing instrumentation of [chronos.h],
    which is not among the sources.  A stopwatch that starts when it is
    built. *)
Definition create (env : Env) : IO t :=
  s <- read_clock env ;; ret (mk s).

Definition reset (env : Env) (c : t) : IO t :=
  s <- read_clock env ;; ret (mk s).

Definition elapsed (env : Env) (c : t) : IO spec_float :=
  e <- read_clock env ;; ret (Fp.sub Fp.binary64 e (start c)).

End Chronos.

(** ** The input reader *)

Module InputReader.

Inductive source : Set :=
| Default
| File (path : string).

Record t : Set := mk { src : source }.

(** [InputReader<TestcaseIterator> reader {}]. *)
Definition create : t := mk Default.

(** Modelled from the spec: [InputReader::from_file] of [input_reader.h],
    which is not among the sources.  The reader is pointed at the named
    file. *)
Definition from_file (path : string) (r : t) : IO t :=
  emit (EvFromFile path) ;; ret (mk (File path)).

(** The finite sequence of testcases the reader's iterator yields. *)
Definition testcases (env : Env) (r : t) : list Testcase :=
  match src r with
  | Default => default_input env
  | File path => file_input env path
  end.

End InputReader.

(** ** [main] *)

(** [argc] is the number of entries of [argv]; [argv[0]] is the program
    name. *)
Definition argc (argv : list string) : Z := Z.of_nat (List.length argv).

(** The variables the loop body updates: the stopwatch and the time
    accumulated so far. *)
Definition loop_state : Set := (Chronos.t * spec_float)%type.

(** The body of the loop over the reader. *)
Definition loop_body (cfg : Config) (env : Env)
           (testcase : Testcase) (s : loop_state) : IO loop_state :=
  let (time, computation_time) := s in
  time <- Chronos.reset env time ;;
  results <- Pairhmm.calculate cfg testcase ;;
  e <- Chronos.elapsed env time ;;
  let computation_time := Fp.add Fp.binary64 computation_time e in
  for_each results
           (fun x _ => emit (EvStdout (show_double cfg x ++ endl))) tt ;;
  ret (time, computation_time).

Definition main (cfg : Config) (env : Env) (argv : list string) : IO Z :=
  let reader := InputReader.create in
  reader <- (if (argc argv =? 2)%Z
             then InputReader.from_file (nth 1 argv "") reader
             else ret reader) ;;
  let computation_time := Fp.zero in
  time <- Chronos.create env ;;
  s <- for_each (InputReader.testcases env reader) (loop_body cfg env)
                (time, computation_time) ;;
  emit (EvStderr ("done in " ++ show_double cfg (snd s) ++ "ms" ++ endl)) ;;
  ret 0%Z.

(** The trace of a whole run. *)
Definition run (cfg : Config) (env : Env) (argv : list string) : list event :=
  trace (snd (main cfg env argv start_world)).

(** ** Reading a trace *)

(** What was written to [cout], write by write. *)
Definition stdout_of (tr : list event) : list string :=
  flat_map (fun e => match e with EvStdout s => [s] | _ => [] end) tr.

(** What was written to [cerr]. *)
Definition stderr_of (tr : list event) : list string :=
  flat_map (fun e => match e with EvStderr s => [s] | _ => [] end) tr.

(** The engine runs, in the order in which they started. *)
Definition engine_runs (tr : list event) : list (precision * Testcase) :=
  flat_map (fun e => match e with EvEngine p tc => [(p, tc)] | _ => [] end) tr.

(** The paths [from_file] was called with. *)
Definition from_file_calls (tr : list event) : list string :=
  flat_map (fun e => match e with EvFromFile p => [p] | _ => [] end) tr.

(** The testcases the run takes from the reader. *)
Definition input_of (env : Env) (argv : list string) : list Testcase :=
  if (argc argv =? 2)%Z then file_input env (nth 1 argv "")
  else default_input env.

(** The scalar the dispatcher returns for a testcase. *)
Definition result_of (cfg : Config) (tc : Testcase) : spec_float :=
  fst (Pairhmm.dispatch cfg tc start_world).

(** The line the driver prints for a testcase. *)
Definition line_of (cfg : Config) (tc : Testcase) : string :=
  show_double cfg (result_of cfg tc) ++ endl.

(** The engine runs one testcase asks for. *)
Definition runs_of (cfg : Config) (tc : Testcase) : list (precision * Testcase) :=
  engine_runs (trace (snd (Pairhmm.dispatch cfg tc start_world))).

(** The testcases on which a computation was started, in the order in
    which they were started: every computation on a testcase starts with
    a run of the reduced-precision engine. *)
Definition testcases_started (tr : list event) : list Testcase :=
  flat_map (fun e => match e with EvEngine Reduced tc => [tc] | _ => [] end) tr.


(** The events of the loop iteration on [tc] that starts at clock
    reading [n]: reset, the engine runs, elapsed, and the printed line. *)
Definition block (cfg : Config) (env : Env) (n : nat) (tc : Testcase) : list event :=
  EvClock (now env n)
  :: map (fun r => EvEngine (fst r) (snd r)) (runs_of cfg tc)
  ++ [EvClock (now env (S n)); EvStdout (line_of cfg tc)].

(** The events of the loop over [tcs], the first iteration starting at
    clock reading [n]. *)
Fixpoint blocks (cfg : Config) (env : Env) (n : nat) (tcs : list Testcase) : list event :=
  match tcs with
  | [] => []
  | tc :: rest => block cfg env n tc ++ blocks cfg env (S (S n)) rest
  end.

(** ** The two precisions side by side *)

(** The relative tolerance [1e-5], rounded to [double]. *)
Definition relative_tolerance : spec_float :=
  Fp.div Fp.binary64 (Fp.one Fp.binary64) (Fp.of_Z Fp.binary64 100000).

(** The full-precision result lies within the relative tolerance of the
    reduced-precision one: [|full - reduced| <= 1e-5 * |reduced|], the
    reduced result widened and the comparison evaluated in [double]. *)
Definition within_tolerance (cfg : Config) (tc : Testcase) : bool :=
  let reduced := Fp.widen (Pairhmm.engine cfg Reduced tc) in
  let full := Pairhmm.engine cfg Full tc in
  SFleb (SFabs (Fp.sub Fp.binary64 full reduced))
        (Fp.mul Fp.binary64 relative_tolerance (SFabs reduced)).

(** ** The time the driver reports *)

(** What [time.elapsed()] returns in iteration [k] of the loop (counted
    from 0): the stopwatch is built at clock reading 0, so the iteration
    resets it at reading [2k+1] and asks for the elapsed time at reading
    [2k+2]. *)
Definition elapsed_at (env : Env) (k : nat) : spec_float :=
  Fp.sub Fp.binary64 (now env (2 * k + 2)) (now env (2 * k + 1)).

(** [computation_time] after [n] iterations: the elapsed times added up
    in [double], in iteration order, starting from [0.f]. *)
Definition reported_time (env : Env) (n : nat) : spec_float :=
  fold_left (fun acc k => Fp.add Fp.binary64 acc (elapsed_at env k))
            (seq 0 n) Fp.zero.

(** The line the driver writes on [cerr] after [n] iterations. *)
Definition done_line (cfg : Config) (env : Env) (n : nat) : string :=
  "done in " ++ show_double cfg (reported_time env n) ++ "ms" ++ endl.

(** The [from_file] call of a run, if it makes one. *)
Definition opening (argv : list string) : list event :=
  if (argc argv =? 2)%Z then [EvFromFile (nth 1 argv "")] else [].

(** ** A concrete configuration for examples *)

Module Fixture.

(** An error probability [1 / 10^(q/10)], correctly rounded; exact powers
    of ten for the qualities 0, 10, 20, ... used in the examples. *)
Definition error_probability (fmt : Fp.format) (q : Z) : spec_float :=
  Fp.div fmt (Fp.one fmt) (Fp.of_Z fmt (10 ^ (q / 10))).

(** Weights of read position [i] (counted from 1) from the quality
    arrays: the substitution mass is split over three bases. *)
Definition weights (fmt : Fp.format) (tc : Testcase) (i : nat) : Weights :=
  let at_pos (qs : list Z) := nth (pred i) qs 0%Z in
  let e := error_probability fmt (at_pos (base_quality tc)) in
  let g := error_probability fmt (at_pos (gap_continuation_quality tc)) in
  mkWeights (Fp.sub fmt (Fp.one fmt) e)
            (Fp.div fmt e (Fp.of_Z fmt 3))
            (error_probability fmt (at_pos (insertion_quality tc)))
            g
            (error_probability fmt (at_pos (deletion_quality tc)))
            g.

Definition show_Z (z : Z) : string := NilZero.string_of_int (Z.to_int z).

(** A rendering of a [double] as sign, significand and binary exponent. *)
Definition show (x : spec_float) : string :=
  match x with
  | S754_zero false => "0"
  | S754_zero true => "-0"
  | S754_infinity false => "inf"
  | S754_infinity true => "-inf"
  | S754_nan => "nan"
  | S754_finite s m e =>
      ((if s then "-" else "") ++ show_Z (Zpos m) ++ "p" ++ show_Z e)%string
  end.

Definition cfg : Config :=
  mkConfig weights
           (mkConstants (Fp.of_Z Fp.binary32 (2 ^ 120))
                        (Fp.div Fp.binary32 (Fp.one Fp.binary32)
                                (Fp.of_Z Fp.binary32 (2 ^ 100))))
           (mkConstants (Fp.of_Z Fp.binary64 (2 ^ 1020))
                        Fp.zero)
           show.

(** The same configuration with one row-0 constant for both precisions. *)
Definition cfg_shared : Config :=
  mkConfig weights (constants_float cfg)
           (mkConstants (initial_constant (constants_float cfg)) Fp.zero)
           show.

Definition bases (s : string) : list base := list_ascii_of_string s.

(** A testcase with the same quality at every read position. *)
Definition testcase (hap rd : string) (q : Z) : Testcase :=
  let n := String.length rd in
  mkTestcase (bases hap) (bases rd)
             (repeat q n) (repeat 40%Z n) (repeat 40%Z n) (repeat 10%Z n).

Definition perfect : Testcase := testcase "ACGT" "ACGT" 30.

Definition mismatch : Testcase := testcase "ACGT" "AGGT" 20.

Definition short : Testcase := testcase "ACG" "AC" 30.

Definition no_haplotype : Testcase := testcase "" "ACGT" 30.




(** Two testcases on the default source, one in the file [reads.txt],
    and a clock that advances five milliseconds per reading. *)
Definition env : Env :=
  mkEnv [perfect; mismatch]
        (fun path => if String.eqb path "reads.txt" then [short] else [])
        (fun n => Fp.of_Z Fp.binary64 (5 * Z.of_nat n)).

End Fixture.

(** * Properties *)

(** ** Reading traces: projections distribute over concatenation *)

Lemma stdout_of_app (a b : list event) :
  stdout_of (a ++ b) = stdout_of a ++ stdout_of b.
Proof. apply flat_map_app. Qed.

Lemma engine_runs_app (a b : list event) :
  engine_runs (a ++ b) = engine_runs a ++ engine_runs b.
Proof. apply flat_map_app. Qed.

Lemma from_file_calls_app (a b : list event) :
  from_file_calls (a ++ b) = from_file_calls a ++ from_file_calls b.
Proof. apply flat_map_app. Qed.

Lemma engine_runs_of_engine_events (rs : list (precision * Testcase)) :
  engine_runs (map (fun r => EvEngine (fst r) (snd r)) rs) = rs.
Proof.
  induction rs as [|[p tc] rs IH]; simpl; [reflexivity|].
  f_equal. exact IH.
Qed.

Lemma stdout_of_engine_events (rs : list (precision * Testcase)) :
  stdout_of (map (fun r => EvEngine (fst r) (snd r)) rs) = [].
Proof. induction rs as [|r rs IH]; simpl; [reflexivity|exact IH]. Qed.

Lemma from_file_calls_of_engine_events (rs : list (precision * Testcase)) :
  from_file_calls (map (fun r => EvEngine (fst r) (snd r)) rs) = [].
Proof. induction rs as [|r rs IH]; simpl; [reflexivity|exact IH]. Qed.

(** ** The dispatcher, run from any world *)

Lemma dispatch_run (cfg : Config) (tc : Testcase) (w : World) :
  Pairhmm.dispatch cfg tc w =
  (result_of cfg tc,
   mkWorld (trace w ++ map (fun r => EvEngine (fst r) (snd r)) (runs_of cfg tc))
           (ticks w)).
Proof.
  unfold result_of, runs_of, Pairhmm.dispatch, Pairhmm.run_engine, bind, emit, ret.
  simpl.
  destruct (Pairhmm.needs_fallback cfg (Pairhmm.engine cfg Reduced tc)); simpl.
  - rewrite <- app_assoc. reflexivity.
  - reflexivity.
Qed.

Lemma result_of_unfold (cfg : Config) (tc : Testcase) :
  result_of cfg tc =
  if Pairhmm.needs_fallback cfg (Pairhmm.engine cfg Reduced tc)
  then Pairhmm.engine cfg Full tc
  else Fp.widen (Pairhmm.engine cfg Reduced tc).
Proof.
  unfold result_of, Pairhmm.dispatch, Pairhmm.run_engine, bind, emit, ret. simpl.
  destruct (Pairhmm.needs_fallback cfg (Pairhmm.engine cfg Reduced tc)); reflexivity.
Qed.

Lemma runs_of_unfold (cfg : Config) (tc : Testcase) :
  runs_of cfg tc =
  (Reduced, tc)
  :: if Pairhmm.needs_fallback cfg (Pairhmm.engine cfg Reduced tc)
     then [(Full, tc)] else [].
Proof.
  unfold runs_of, Pairhmm.dispatch, Pairhmm.run_engine, bind, emit, ret. simpl.
  destruct (Pairhmm.needs_fallback cfg (Pairhmm.engine cfg Reduced tc)); reflexivity.
Qed.

(** ** The loop of [main] *)

Lemma loop_body_run (cfg : Config) (env : Env) (tc : Testcase)
      (s : loop_state) (w : World) :
  exists s',
    loop_body cfg env tc s w =
    (s', mkWorld (trace w ++ block cfg env (ticks w) tc) (S (S (ticks w)))).
Proof.
  destruct s as [time ct].
  unfold loop_body, Pairhmm.calculate, Chronos.reset, Chronos.elapsed, read_clock.
  unfold bind at 1 2. simpl.
  unfold bind at 1 2. rewrite dispatch_run. simpl.
  eexists. unfold bind, emit, ret, block, line_of. simpl.
  repeat rewrite <- app_assoc. simpl. reflexivity.
Qed.

Lemma for_each_run (cfg : Config) (env : Env) (tcs : list Testcase) :
  forall (s : loop_state) (w : World),
  exists s',
    for_each tcs (loop_body cfg env) s w =
    (s', mkWorld (trace w ++ blocks cfg env (ticks w) tcs)
                 (ticks w + 2 * List.length tcs)).
Proof.
  induction tcs as [|tc rest IH]; intros s w.
  - exists s. simpl. unfold ret. rewrite app_nil_r, Nat.add_0_r.
    destruct w; reflexivity.
  - destruct (loop_body_run cfg env tc s w) as [s1 H1].
    simpl for_each. unfold bind at 1. rewrite H1.
    destruct (IH s1 (mkWorld (trace w ++ block cfg env (ticks w) tc)
                             (S (S (ticks w))))) as [s2 H2].
    exists s2. rewrite H2. simpl. rewrite <- app_assoc.
    f_equal. f_equal. lia.
Qed.

(** The whole trace of a run: the optional [from_file] call, the start of
    the stopwatch, one block per testcase, and the closing line on
    [cerr]. *)
Lemma run_shape (cfg : Config) (env : Env) (argv : list string) :
  exists t,
    run cfg env argv =
    (if (argc argv =? 2)%Z then [EvFromFile (nth 1 argv "")] else [])
    ++ EvClock (now env 0)
    :: blocks cfg env 1 (input_of env argv) ++ [EvStderr t].
Proof.
  unfold run, main, input_of.
  destruct (argc argv =? 2)%Z.
  - unfold InputReader.from_file, Chronos.create, read_clock.
    unfold bind at 1 2 3 4. simpl.
    unfold bind at 1.
    match goal with
    | |- context [for_each ?l ?b ?s ?w] =>
        destruct (for_each_run cfg env l s w) as [s' Hs]
    end.
    unfold InputReader.testcases in *. simpl in *.
    rewrite Hs. eexists. unfold bind, emit, ret. simpl. reflexivity.
  - unfold Chronos.create, read_clock.
    unfold bind at 1 2 3. simpl.
    unfold bind at 1.
    match goal with
    | |- context [for_each ?l ?b ?s ?w] =>
        destruct (for_each_run cfg env l s w) as [s' Hs]
    end.
    unfold InputReader.testcases in *. simpl in *.
    rewrite Hs. eexists. unfold bind, emit, ret. simpl. reflexivity.
Qed.

Lemma stdout_of_block (cfg : Config) (env : Env) (n : nat) (tc : Testcase) :
  stdout_of (block cfg env n tc) = [line_of cfg tc].
Proof.
  unfold block. change (stdout_of (?e :: ?l)) with (stdout_of l).
  simpl. rewrite stdout_of_app, stdout_of_engine_events. reflexivity.
Qed.

Lemma engine_runs_of_block (cfg : Config) (env : Env) (n : nat) (tc : Testcase) :
  engine_runs (block cfg env n tc) = runs_of cfg tc.
Proof.
  unfold block. simpl.
  rewrite engine_runs_app, engine_runs_of_engine_events. simpl.
  apply app_nil_r.
Qed.

Lemma from_file_calls_of_block (cfg : Config) (env : Env) (n : nat) (tc : Testcase) :
  from_file_calls (block cfg env n tc) = [].
Proof.
  unfold block. simpl.
  rewrite from_file_calls_app, from_file_calls_of_engine_events. reflexivity.
Qed.

Lemma stdout_of_blocks (cfg : Config) (env : Env) (tcs : list Testcase) :
  forall n, stdout_of (blocks cfg env n tcs) = map (line_of cfg) tcs.
Proof.
  induction tcs as [|tc rest IH]; intros n; [reflexivity|].
  cbn [blocks map].
  rewrite stdout_of_app, stdout_of_block, IH. reflexivity.
Qed.

Lemma engine_runs_of_blocks (cfg : Config) (env : Env) (tcs : list Testcase) :
  forall n, engine_runs (blocks cfg env n tcs) = flat_map (runs_of cfg) tcs.
Proof.
  induction tcs as [|tc rest IH]; intros n; [reflexivity|].
  cbn [blocks flat_map].
  rewrite engine_runs_app, engine_runs_of_block, IH. reflexivity.
Qed.

Lemma from_file_calls_of_blocks (cfg : Config) (env : Env) (tcs : list Testcase) :
  forall n, from_file_calls (blocks cfg env n tcs) = [].
Proof.
  induction tcs as [|tc rest IH]; intros n; [reflexivity|].
  cbn [blocks].
  rewrite from_file_calls_app, from_file_calls_of_block, IH. reflexivity.
Qed.

Lemma blocks_app (cfg : Config) (env : Env) (l1 l2 : list Testcase) :
  forall n,
    blocks cfg env n (l1 ++ l2) =
    blocks cfg env n l1 ++ blocks cfg env (n + 2 * List.length l1) l2.
Proof.
  induction l1 as [|tc rest IH]; intros n.
  - simpl. rewrite Nat.add_0_r. reflexivity.
  - cbn [blocks app List.length]. rewrite IH, <- app_assoc. do 3 f_equal. lia.
Qed.

(** What a run prints on [cout]: the line of each testcase of the input,
    in input order. *)
Lemma stdout_of_run (cfg : Config) (env : Env) (argv : list string) :
  stdout_of (run cfg env argv) = map (line_of cfg) (input_of env argv).
Proof.
  destruct (run_shape cfg env argv) as [t Ht]. rewrite Ht.
  rewrite stdout_of_app.
  change (stdout_of (EvClock ?c :: ?l)) with (stdout_of l).
  rewrite stdout_of_app, stdout_of_blocks. simpl.
  destruct (argc argv =? 2)%Z; simpl; apply app_nil_r.
Qed.

(** The engine runs of a whole run: those of each testcase of the input,
    in input order. *)
Lemma engine_runs_of_run (cfg : Config) (env : Env) (argv : list string) :
  engine_runs (run cfg env argv) = flat_map (runs_of cfg) (input_of env argv).
Proof.
  destruct (run_shape cfg env argv) as [t Ht]. rewrite Ht.
  rewrite engine_runs_app.
  change (engine_runs (EvClock ?c :: ?l)) with (engine_runs l).
  rewrite engine_runs_app, engine_runs_of_blocks. simpl.
  destruct (argc argv =? 2)%Z; simpl; apply app_nil_r.
Qed.

Lemma from_file_calls_of_run (cfg : Config) (env : Env) (argv : list string) :
  from_file_calls (run cfg env argv) =
  if (argc argv =? 2)%Z then [nth 1 argv ""] else [].
Proof.
  destruct (run_shape cfg env argv) as [t Ht]. rewrite Ht.
  rewrite from_file_calls_app.
  change (from_file_calls (EvClock ?c :: ?l)) with (from_file_calls l).
  rewrite from_file_calls_app, from_file_calls_of_blocks. simpl.
  destruct (argc argv =? 2)%Z; reflexivity.
Qed.

(** ** Output order *)

(** The driver prints every element of the range [calculate] returns:
    [cout] holds, testcase after testcase, one line per element. *)
Lemma stdout_is_results_in_order (cfg : Config) (env : Env) (argv : list string) :
  stdout_of (run cfg env argv)
  = flat_map (fun tc =>
                map (fun x => (show_double cfg x ++ endl)%string)
                    (fst (Pairhmm.calculate cfg tc start_world)))
             (input_of env argv).
Proof.
  rewrite stdout_of_run.
  induction (input_of env argv) as [|tc rest IH]; [reflexivity|].
  cbn [map flat_map]. rewrite IH.
  unfold Pairhmm.calculate, bind. rewrite dispatch_run. reflexivity.
Qed.

(** C1.  For every finite input sequence of testcases the run prints
    exactly one result per testcase, in input order: [cout] receives as
    many lines as the reader yields testcases, and line [k] is the result
    of the dispatcher on testcase [k]. *)
Theorem one_result_per_testcase_in_order
        (cfg : Config) (env : Env) (argv : list string) :
  let tcs := input_of env argv in
  let out := stdout_of (run cfg env argv) in
  List.length out = List.length tcs
  /\ forall k tc,
       nth_error tcs k = Some tc ->
       nth_error out k = Some (show_double cfg (result_of cfg tc) ++ endl)%string.
Proof.
  simpl. rewrite stdout_of_run. split.
  - apply length_map.
  - intros k tc Hk. rewrite nth_error_map, Hk. reflexivity.
Qed.

(** ** Determinism *)

(** C7.  Two runs on the same command line and the same input, whatever
    the clock reads in each, print the same text on [cout]. *)
Theorem stdout_deterministic
        (cfg : Config) (inputs : list Testcase)
        (files : string -> list Testcase)
        (clock1 clock2 : nat -> spec_float) (argv : list string) :
  stdout_of (run cfg (mkEnv inputs files clock1) argv)
  = stdout_of (run cfg (mkEnv inputs files clock2) argv).
Proof. rewrite !stdout_of_run. reflexivity. Qed.

(** ** Choice of the input source *)

Lemma testcases_started_app (a b : list event) :
  testcases_started (a ++ b) = testcases_started a ++ testcases_started b.
Proof. apply flat_map_app. Qed.

Lemma testcases_started_of_block (cfg : Config) (env : Env) (n : nat) (tc : Testcase) :
  testcases_started (block cfg env n tc) = [tc].
Proof.
  unfold block. rewrite runs_of_unfold.
  destruct (Pairhmm.needs_fallback cfg (Pairhmm.engine cfg Reduced tc));
    reflexivity.
Qed.

Lemma testcases_started_of_blocks (cfg : Config) (env : Env) (tcs : list Testcase) :
  forall n, testcases_started (blocks cfg env n tcs) = tcs.
Proof.
  induction tcs as [|tc rest IH]; intros n; [reflexivity|].
  cbn [blocks].
  rewrite testcases_started_app, testcases_started_of_block, IH. reflexivity.
Qed.

Lemma testcases_started_of_run (cfg : Config) (env : Env) (argv : list string) :
  testcases_started (run cfg env argv) = input_of env argv.
Proof.
  destruct (run_shape cfg env argv) as [t Ht]. rewrite Ht.
  rewrite testcases_started_app.
  change (testcases_started (EvClock ?c :: ?l)) with (testcases_started l).
  rewrite testcases_started_app, testcases_started_of_blocks. simpl.
  destruct (argc argv =? 2)%Z; simpl; apply app_nil_r.
Qed.

(** With an [argc] other than 2 the run never looks at [argv]. *)
Lemma run_ignores_arguments (cfg : Config) (env : Env) (argv argv' : list string) :
  argc argv <> 2%Z -> argc argv' <> 2%Z ->
  run cfg env argv' = run cfg env argv.
Proof.
  intros H H'. unfold run, main.
  apply Z.eqb_neq in H. apply Z.eqb_neq in H'. rewrite H, H'. reflexivity.
Qed.

(** C10.  [from_file] is called, once and with [argv[1]], exactly when
    [argc] is 2, and the testcases are then those of that file; for any
    other [argc] it is never called, the testcases are those of the
    reader's default source, and the arguments are ignored: the run is
    the same for every such command line. *)
Theorem from_file_iff_one_argument
        (cfg : Config) (env : Env) (argv : list string) :
  (forall path, In path (from_file_calls (run cfg env argv))
                <-> argc argv = 2%Z /\ path = nth 1 argv "")
  /\ (argc argv = 2%Z ->
      from_file_calls (run cfg env argv) = [nth 1 argv ""]
      /\ testcases_started (run cfg env argv) = file_input env (nth 1 argv ""))
  /\ (argc argv <> 2%Z ->
      from_file_calls (run cfg env argv) = []
      /\ testcases_started (run cfg env argv) = default_input env
      /\ forall argv', argc argv' <> 2%Z -> run cfg env argv' = run cfg env argv).
Proof.
  rewrite from_file_calls_of_run, testcases_started_of_run. unfold input_of.
  destruct (Z.eqb_spec (argc argv) 2) as [E|E].
  - split; [|split].
    + intros path. simpl. split.
      * intros [<-|[]]. split; [exact E|reflexivity].
      * intros [_ ->]. left. reflexivity.
    + intros _. split; reflexivity.
    + intros N. contradiction.
  - split; [|split].
    + intros path. simpl. split; [intros []|intros [E' _]; contradiction].
    + intros E'. contradiction.
    + intros _. split; [reflexivity|]. split; [reflexivity|].
      intros argv' N'. apply run_ignores_arguments; assumption.
Qed.

(** ** The precision fallback *)



(** ** Sequential processing *)

Lemma firstn_snoc {A : Type} (l : list A) :
  forall k a, nth_error l k = Some a -> firstn (S k) l = firstn k l ++ [a].
Proof.
  induction l as [|x l IH]; intros [|k] a H; simpl in H; try discriminate.
  - injection H as ->. reflexivity.
  - rewrite 2 firstn_cons. rewrite (IH k a H). reflexivity.
Qed.

Lemma skipn_cons {A : Type} (l : list A) :
  forall k a, nth_error l k = Some a -> skipn k l = a :: skipn (S k) l.
Proof.
  induction l as [|x l IH]; intros [|k] a H; simpl in H; try discriminate.
  - injection H as ->. reflexivity.
  - change (skipn (S k) (x :: l)) with (skipn k l).
    change (skipn (S (S k)) (x :: l)) with (skipn (S k) l).
    apply (IH k a H).
Qed.

Lemma regroup {A : Type} (p b1 evs b2 s : list A) (c e : A) :
  p ++ c :: ((b1 ++ evs ++ [e]) ++ b2) ++ s
  = (p ++ c :: b1 ++ evs) ++ e :: b2 ++ s.
Proof.
  rewrite <- !app_assoc. simpl. rewrite <- !app_assoc. reflexivity.
Qed.

Lemma block_ends_with_line (cfg : Config) (env : Env) (n : nat) (tc : Testcase) :
  exists evs, block cfg env n tc = evs ++ [EvStdout (line_of cfg tc)].
Proof.
  unfold block.
  exists (EvClock (now env n)
          :: map (fun r => EvEngine (fst r) (snd r)) (runs_of cfg tc)
          ++ [EvClock (now env (S n))]).
  simpl. rewrite <- app_assoc. reflexivity.
Qed.

(** C9.  For consecutive testcases [a] (at index [k]) and [b] (at index
    [k+1]) the trace of the run splits at the write of the line of [a]:
    before it lie every engine run on testcases 0..k, fallback runs
    included, and the lines of testcases 0..k-1; after it lie every
    engine run on [b] and on the later testcases, the first of them the
    reduced-precision run on [b], and their lines. *)
Theorem sequential_processing
        (cfg : Config) (env : Env) (argv : list string)
        (k : nat) (a b : Testcase) :
  nth_error (input_of env argv) k = Some a ->
  nth_error (input_of env argv) (S k) = Some b ->
  exists before after,
    run cfg env argv = before ++ EvStdout (line_of cfg a) :: after
    /\ engine_runs before
       = flat_map (runs_of cfg) (firstn (S k) (input_of env argv))
    /\ stdout_of before = map (line_of cfg) (firstn k (input_of env argv))
    /\ engine_runs after
       = flat_map (runs_of cfg) (skipn (S k) (input_of env argv))
    /\ hd_error (engine_runs after) = Some (Reduced, b)
    /\ stdout_of after = map (line_of cfg) (skipn (S k) (input_of env argv)).
Proof.
  intros Ha Hb.
  destruct (run_shape cfg env argv) as [t Ht].
  set (tcs := input_of env argv) in *.
  rewrite <- (firstn_skipn (S k) tcs) in Ht at 1.
  rewrite blocks_app in Ht.
  rewrite (firstn_snoc tcs k a Ha) in Ht at 1.
  rewrite blocks_app in Ht. cbn [blocks] in Ht. rewrite app_nil_r in Ht.
  destruct (block_ends_with_line cfg env (1 + 2 * List.length (firstn k tcs)) a)
    as [evs Hevs].
  assert (Hruns : engine_runs evs = runs_of cfg a).
  { rewrite <- (engine_runs_of_block cfg env
                  (1 + 2 * List.length (firstn k tcs)) a), Hevs.
    rewrite engine_runs_app. simpl. symmetry. apply app_nil_r. }
  assert (Hout : stdout_of evs = []).
  { pose proof (stdout_of_block cfg env
                  (1 + 2 * List.length (firstn k tcs)) a) as Hb'.
    rewrite Hevs, stdout_of_app in Hb'. simpl in Hb'.
    destruct (stdout_of evs) as [|x l]; [reflexivity|].
    destruct l; discriminate. }
  rewrite Hevs in Ht.
  exists ((if (argc argv =? 2)%Z then [EvFromFile (nth 1 argv "")] else [])
          ++ EvClock (now env 0)
          :: blocks cfg env 1 (firstn k tcs) ++ evs).
  exists (blocks cfg env
                 (1 + 2 * List.length (firstn (S k) tcs))
                 (skipn (S k) tcs) ++ [EvStderr t]).
  split; [|split; [|split; [|split; [|split]]]].
  - rewrite Ht. apply regroup.
  - rewrite engine_runs_app.
    change (engine_runs (EvClock ?c :: ?l)) with (engine_runs l).
    rewrite engine_runs_app, engine_runs_of_blocks, Hruns.
    rewrite (firstn_snoc tcs k a Ha), flat_map_app. simpl.
    rewrite app_nil_r.
    destruct (argc argv =? 2)%Z; reflexivity.
  - rewrite stdout_of_app.
    change (stdout_of (EvClock ?c :: ?l)) with (stdout_of l).
    rewrite stdout_of_app, stdout_of_blocks, Hout, app_nil_r.
    destruct (argc argv =? 2)%Z; reflexivity.
  - rewrite engine_runs_app, engine_runs_of_blocks. simpl. apply app_nil_r.
  - rewrite engine_runs_app, engine_runs_of_blocks.
    rewrite (skipn_cons tcs (S k) b Hb). cbn [flat_map].
    rewrite runs_of_unfold. reflexivity.
  - rewrite stdout_of_app, stdout_of_blocks. simpl. apply app_nil_r.
Qed.

(** ** The Forward Engine against the recurrence *)

Section RollingRows.

Variable fmt : Fp.format.
Variable K : Constants.
Variable weights : nat -> Weights.
Variable tc : Testcase.
Variables Mx Ix Dx : nat -> nat -> spec_float.
Hypothesis Hsolves : Recurrence.solves fmt K weights tc Mx Ix Dx.

Local Abbreviation cell_of := (Recurrence.cell_of Mx Ix Dx).
Local Abbreviation row_of := (Recurrence.row_of tc Mx Ix Dx).

Lemma map_seq_constant {A : Type} (f : nat -> A) (c : A) (n : nat) :
  forall a, (forall j, a <= j < a + n -> f j = c) ->
            map f (seq a n) = repeat c n.
Proof.
  induction n as [|n IH]; intros a Hf; [reflexivity|].
  simpl. rewrite (Hf a) by lia. f_equal. apply IH.
  intros j Hj. apply Hf. lia.
Qed.

Lemma row0_is_row_of_0 : Forward.row0 K (hap_len tc) = row_of 0.
Proof.
  unfold Forward.row0, row_of. symmetry. apply map_seq_constant.
  intros j Hj. unfold cell_of.
  rewrite (Recurrence.row0_M _ _ _ _ _ _ _ Hsolves j) by lia.
  rewrite (Recurrence.row0_I _ _ _ _ _ _ _ Hsolves j) by lia.
  rewrite (Recurrence.row0_D _ _ _ _ _ _ _ Hsolves j) by lia.
  reflexivity.
Qed.

Lemma skipn_hap (j : nat) :
  j < hap_len tc ->
  skipn j (haplotype tc)
  = Recurrence.hap_at tc (S j) :: skipn (S j) (haplotype tc).
Proof.
  intros Hj. apply skipn_cons. unfold Recurrence.hap_at. simpl.
  apply nth_error_nth'. exact Hj.
Qed.

Lemma skipn_read (i : nat) :
  i < read_len tc ->
  skipn i (read tc) = Recurrence.read_at tc (S i) :: skipn (S i) (read tc).
Proof.
  intros Hi. apply skipn_cons. unfold Recurrence.read_at. simpl.
  apply nth_error_nth'. exact Hi.
Qed.

(** One sweep, started at column [j+1], writes row [i+1] from row [i]. *)
Lemma sweep_writes_row (i : nat) :
  i < read_len tc ->
  forall d j,
    j + d = hap_len tc ->
    Forward.sweep fmt (weights (S i)) (Recurrence.read_at tc (S i))
                  (skipn j (haplotype tc))
                  (cell_of i j) (map (cell_of i) (seq (S j) d))
                  (cell_of (S i) j)
    = map (cell_of (S i)) (seq (S j) d).
Proof.
  intros Hi. induction d as [|d IH]; intros j Hj.
  - simpl. destruct (skipn j (haplotype tc)); reflexivity.
  - rewrite skipn_hap by lia. cbn [seq map Forward.sweep].
    assert (Hc : Forward.Cell
                   (Forward.match_value fmt (weights (S i))
                      (Recurrence.read_at tc (S i)) (Recurrence.hap_at tc (S j))
                      (cell_of i j))
                   (Forward.insertion_value fmt (weights (S i)) (cell_of i (S j)))
                   (Forward.deletion_value fmt (weights (S i)) (cell_of (S i) j))
                 = cell_of (S i) (S j)).
    { unfold cell_of at 4.
      rewrite (Recurrence.eq_M _ _ _ _ _ _ _ Hsolves (S i) (S j)) by lia.
      rewrite (Recurrence.eq_I _ _ _ _ _ _ _ Hsolves (S i) (S j)) by lia.
      rewrite (Recurrence.eq_D _ _ _ _ _ _ _ Hsolves (S i) (S j)) by lia.
      reflexivity. }
    rewrite Hc. f_equal. apply IH. lia.
Qed.

Lemma next_row_is_row_of_S (i : nat) :
  i < read_len tc ->
  Forward.next_row fmt (weights (S i)) (Recurrence.read_at tc (S i))
                   (haplotype tc) (row_of i)
  = row_of (S i).
Proof.
  intros Hi. unfold row_of. cbn [seq map Forward.next_row].
  assert (Hc : Forward.cell0 fmt (weights (S i)) (cell_of i 0) = cell_of (S i) 0).
  { unfold cell_of at 2.
    rewrite (Recurrence.col0_M _ _ _ _ _ _ _ Hsolves (S i)) by lia.
    rewrite (Recurrence.col0_D _ _ _ _ _ _ _ Hsolves (S i)) by lia.
    rewrite (Recurrence.eq_I _ _ _ _ _ _ _ Hsolves (S i) 0) by lia.
    reflexivity. }
  rewrite Hc. f_equal.
  apply (sweep_writes_row i Hi (hap_len tc) 0). reflexivity.
Qed.

(** Rolling over the read bases from position [i+1] on ends in row [R]. *)
Lemma roll_reaches_last_row :
  forall rd i,
    i + List.length rd = read_len tc ->
    rd = skipn i (read tc) ->
    Forward.roll fmt weights (haplotype tc) (S i) rd (row_of i)
    = row_of (read_len tc).
Proof.
  induction rd as [|r rd IH]; intros i Hlen Hrd.
  - simpl in *. replace i with (read_len tc) by lia. reflexivity.
  - simpl in Hlen. rewrite skipn_read in Hrd by lia.
    injection Hrd as Hr Hrd'. subst r.
    cbn [Forward.roll]. rewrite next_row_is_row_of_S by lia.
    apply IH; [lia|exact Hrd'].
Qed.

Lemma fold_left_cells (f : nat -> Forward.cell) (js : list nat) :
  forall acc,
    fold_left (fun a c => Fp.add fmt a (Fp.add fmt (Forward.cM c) (Forward.cI c)))
              (map f js) acc
    = fold_left (fun a j => Fp.add fmt a
                              (Fp.add fmt (Forward.cM (f j)) (Forward.cI (f j))))
                js acc.
Proof.
  induction js as [|j js IH]; intros acc; [reflexivity|].
  simpl. apply IH.
Qed.

Lemma compute_is_total :
  Forward.compute fmt K weights tc = Recurrence.total fmt tc Mx Ix.
Proof.
  unfold Forward.compute. rewrite row0_is_row_of_0.
  rewrite (roll_reaches_last_row (read tc) 0) by reflexivity.
  unfold Forward.final_sum, Recurrence.row_of, Recurrence.total.
  cbn [seq map tl]. rewrite fold_left_cells. reflexivity.
Qed.

End RollingRows.

(** The matrices computed entry by entry solve the recurrence. *)
Lemma entry_solves (fmt : Fp.format) (K : Constants)
      (weights : nat -> Weights) (tc : Testcase) :
  Recurrence.solves fmt K weights tc
                    (Recurrence.M fmt K weights tc)
                    (Recurrence.I fmt K weights tc)
                    (Recurrence.D fmt K weights tc).
Proof.
  split; unfold Recurrence.M, Recurrence.I, Recurrence.D.
  - intros j _. reflexivity.
  - intros j _. reflexivity.
  - intros j _. reflexivity.
  - intros [|i] Hi; [lia|reflexivity].
  - intros [|i] Hi; [lia|reflexivity].
  - intros [|i] [|j] Hi Hj; try lia; reflexivity.
  - intros [|i] [|j] Hi Hj; try lia; reflexivity.
  - intros [|i] [|j] Hi Hj; try lia; reflexivity.
Qed.

(** C3.  For a testcase with R >= 1 and H >= 1 the scalar the Forward
    Engine returns, at either precision, is the sum over j = 1..H of
    M[R][j] + I[R][j], for any matrices M, I, D that satisfy the
    three-state recurrence with row 0 of M uniform, row 0 of I and D
    zero, and column 0 zero for Match and Deletion. *)
Theorem forward_engine_sums_last_row
        (cfg : Config) (p : precision) (tc : Testcase)
        (Mx Ix Dx : nat -> nat -> spec_float) :
  1 <= read_len tc ->
  1 <= hap_len tc ->
  Recurrence.solves (Pairhmm.format_of p) (Pairhmm.constants_of cfg p)
                    (quality_model cfg (Pairhmm.format_of p) tc) tc Mx Ix Dx ->
  Pairhmm.engine cfg p tc = Recurrence.total (Pairhmm.format_of p) tc Mx Ix.
Proof.
  intros _ _ Hs. unfold Pairhmm.engine.
  apply (compute_is_total _ _ _ _ Mx Ix Dx Hs).
Qed.

(** ** Edge cases of the Forward Engine *)

Lemma roll_without_haplotype (fmt : Fp.format) (weights : nat -> Weights) :
  forall rd i prev,
    List.length prev = 1 ->
    List.length (Forward.roll fmt weights [] i rd prev) = 1.
Proof.
  induction rd as [|r rd IH]; intros i prev Hp; [exact Hp|].
  cbn [Forward.roll]. apply IH.
  destruct prev as [|c prev]; [discriminate|]. reflexivity.
Qed.

Lemma final_sum_single_column (fmt : Fp.format) (last : Forward.row) :
  List.length last = 1 -> Forward.final_sum fmt last = Fp.zero.
Proof.
  destruct last as [|c [|c' l]]; try discriminate. reflexivity.
Qed.

Lemma engine_without_haplotype (cfg : Config) (p : precision) (tc : Testcase) :
  hap_len tc = 0 -> 0 < read_len tc -> Pairhmm.engine cfg p tc = Fp.zero.
Proof.
  unfold hap_len, Pairhmm.engine, Forward.compute.
  intros HH _. unfold hap_len.
  destruct (haplotype tc) as [|h hap]; [|discriminate].
  apply final_sum_single_column, roll_without_haplotype. reflexivity.
Qed.

(** C4.  With no haplotype base and at least one read base, both engines
    return exactly 0 and so does the dispatcher. *)
Theorem empty_haplotype_gives_zero (cfg : Config) (tc : Testcase) :
  hap_len tc = 0 ->
  0 < read_len tc ->
  (forall p, Pairhmm.engine cfg p tc = Fp.zero)
  /\ result_of cfg tc = Fp.zero.
Proof.
  intros HH HR. split.
  - intros p. apply engine_without_haplotype; assumption.
  - rewrite result_of_unfold.
    rewrite !engine_without_haplotype by assumption. reflexivity.
Qed.




(** ** The theorems at concrete inputs *)

Example run_on_default_source :
  stdout_of (run Fixture.cfg Fixture.env ["pairhmm"])
  = [line_of Fixture.cfg Fixture.perfect; line_of Fixture.cfg Fixture.mismatch].
Proof. vm_compute. reflexivity. Qed.

Example run_on_named_file :
  from_file_calls (run Fixture.cfg Fixture.env ["pairhmm"; "reads.txt"])
  = ["reads.txt"]
  /\ testcases_started (run Fixture.cfg Fixture.env ["pairhmm"; "reads.txt"])
     = [Fixture.short].
Proof. vm_compute. split; reflexivity. Qed.

Example run_with_two_arguments :
  run Fixture.cfg Fixture.env ["pairhmm"; "reads.txt"; "more"]
  = run Fixture.cfg Fixture.env ["pairhmm"].
Proof. vm_compute. reflexivity. Qed.

(** The closing line on [cerr] reports the measured time, and so follows
    the clock. *)
Example stderr_follows_the_clock :
  stderr_of (run Fixture.cfg Fixture.env ["pairhmm"])
  <> stderr_of (run Fixture.cfg
                    (mkEnv (default_input Fixture.env) (file_input Fixture.env)
                           (fun n => Fp.of_Z Fp.binary64 (7 * Z.of_nat n)))
                    ["pairhmm"]).
Proof. vm_compute. discriminate. Qed.

(** The precisions agree on a well-conditioned testcase: no fallback. *)
Example perfect_match_stays_reduced :
  runs_of Fixture.cfg Fixture.perfect = [(Reduced, Fixture.perfect)]
  /\ result_of Fixture.cfg Fixture.perfect
     = Fp.widen (Pairhmm.engine Fixture.cfg Reduced Fixture.perfect).
Proof. vm_compute. split; reflexivity. Qed.

(** Whether the two precisions agree within the tolerance follows the
    row-0 constants: with a constant per precision the two results are on
    different scales, with one shared constant they agree. *)
Example tolerance_follows_the_constants :
  Pairhmm.needs_fallback Fixture.cfg
    (Pairhmm.engine Fixture.cfg Reduced Fixture.perfect) = false
  /\ within_tolerance Fixture.cfg Fixture.perfect = false
  /\ Pairhmm.needs_fallback Fixture.cfg_shared
       (Pairhmm.engine Fixture.cfg_shared Reduced Fixture.perfect) = false
  /\ within_tolerance Fixture.cfg_shared Fixture.perfect = true.
Proof. vm_compute. repeat split; reflexivity. Qed.

Example no_haplotype_falls_back :
  runs_of Fixture.cfg Fixture.no_haplotype
  = [(Reduced, Fixture.no_haplotype); (Full, Fixture.no_haplotype)].
Proof. vm_compute. reflexivity. Qed.

Lemma forward_engine_sums_last_row_witness :
  1 <= read_len Fixture.short
  /\ 1 <= hap_len Fixture.short
  /\ Pairhmm.engine Fixture.cfg Reduced Fixture.short
     = Recurrence.total Fp.binary32 Fixture.short
         (Recurrence.M Fp.binary32 (constants_float Fixture.cfg)
                       (Fixture.weights Fp.binary32 Fixture.short) Fixture.short)
         (Recurrence.I Fp.binary32 (constants_float Fixture.cfg)
                       (Fixture.weights Fp.binary32 Fixture.short) Fixture.short).
Proof.
  assert (HR : 1 <= read_len Fixture.short) by (vm_compute; lia).
  assert (HH : 1 <= hap_len Fixture.short) by (vm_compute; lia).
  split; [exact HR|]. split; [exact HH|].
  apply (forward_engine_sums_last_row
           Fixture.cfg Reduced Fixture.short _ _
           (Recurrence.D Fp.binary32 (constants_float Fixture.cfg)
                         (Fixture.weights Fp.binary32 Fixture.short)
                         Fixture.short) HR HH).
  apply entry_solves.
Defined.

Lemma empty_haplotype_gives_zero_witness :
  hap_len Fixture.no_haplotype = 0
  /\ 0 < read_len Fixture.no_haplotype
  /\ (forall p, Pairhmm.engine Fixture.cfg p Fixture.no_haplotype = Fp.zero)
  /\ result_of Fixture.cfg Fixture.no_haplotype = Fp.zero.
Proof.
  assert (HH : hap_len Fixture.no_haplotype = 0) by reflexivity.
  assert (HR : 0 < read_len Fixture.no_haplotype) by (vm_compute; lia).
  split; [exact HH|]. split; [exact HR|].
  apply (empty_haplotype_gives_zero Fixture.cfg Fixture.no_haplotype HH HR).
Defined.



Lemma sequential_processing_witness :
  nth_error (input_of Fixture.env ["pairhmm"]) 0 = Some Fixture.perfect
  /\ nth_error (input_of Fixture.env ["pairhmm"]) 1 = Some Fixture.mismatch
  /\ exists before after,
       run Fixture.cfg Fixture.env ["pairhmm"]
       = before ++ EvStdout (line_of Fixture.cfg Fixture.perfect) :: after
       /\ engine_runs before
          = flat_map (runs_of Fixture.cfg)
                     (firstn 1 (input_of Fixture.env ["pairhmm"]))
       /\ stdout_of before
          = map (line_of Fixture.cfg)
                (firstn 0 (input_of Fixture.env ["pairhmm"]))
       /\ engine_runs after
          = flat_map (runs_of Fixture.cfg)
                     (skipn 1 (input_of Fixture.env ["pairhmm"]))
       /\ hd_error (engine_runs after) = Some (Reduced, Fixture.mismatch)
       /\ stdout_of after
          = map (line_of Fixture.cfg)
                (skipn 1 (input_of Fixture.env ["pairhmm"])).
Proof.
  assert (Ha : nth_error (input_of Fixture.env ["pairhmm"]) 0
               = Some Fixture.perfect) by reflexivity.
  assert (Hb : nth_error (input_of Fixture.env ["pairhmm"]) 1
               = Some Fixture.mismatch) by reflexivity.
  split; [exact Ha|]. split; [exact Hb|].
  apply (sequential_processing Fixture.cfg Fixture.env ["pairhmm"] 0
                               Fixture.perfect Fixture.mismatch Ha Hb).
Defined.

(** * More on the driver *)

(** ** The whole run, with what it returns *)

Lemma loop_body_value (cfg : Config) (env : Env) (tc : Testcase)
      (time : Chronos.t) (ct : spec_float) (w : World) :
  loop_body cfg env tc (time, ct) w =
  ((Chronos.mk (now env (ticks w)),
    Fp.add Fp.binary64 ct
           (Fp.sub Fp.binary64 (now env (S (ticks w))) (now env (ticks w)))),
   mkWorld (trace w ++ block cfg env (ticks w) tc) (S (S (ticks w)))).
Proof.
  unfold loop_body, Pairhmm.calculate, Chronos.reset, Chronos.elapsed, read_clock.
  unfold bind at 1 2. simpl.
  unfold bind at 1 2. rewrite dispatch_run. simpl.
  unfold bind, emit, ret, block, line_of. simpl.
  repeat rewrite <- app_assoc. simpl. reflexivity.
Qed.

Lemma for_each_value (cfg : Config) (env : Env) (tcs : list Testcase) :
  forall (k : nat) (time : Chronos.t) (ct : spec_float) (w : World),
    ticks w = 2 * k + 1 ->
    exists time',
      for_each tcs (loop_body cfg env) (time, ct) w =
      ((time',
        fold_left (fun acc j => Fp.add Fp.binary64 acc (elapsed_at env j))
                  (seq k (List.length tcs)) ct),
       mkWorld (trace w ++ blocks cfg env (ticks w) tcs)
               (ticks w + 2 * List.length tcs)).
Proof.
  induction tcs as [|tc rest IH]; intros k time ct w Hk.
  - exists time. simpl. unfold ret. rewrite app_nil_r, Nat.add_0_r.
    destruct w; reflexivity.
  - cbn [for_each]. unfold bind at 1. rewrite loop_body_value.
    assert (Hk' : ticks (mkWorld (trace w ++ block cfg env (ticks w) tc)
                                 (S (S (ticks w)))) = 2 * S k + 1)
      by (cbn [ticks]; lia).
    destruct (IH (S k) (Chronos.mk (now env (ticks w)))
                 (Fp.add Fp.binary64 ct
                    (Fp.sub Fp.binary64 (now env (S (ticks w)))
                            (now env (ticks w))))
                 _ Hk')
      as [time' Ht].
    exists time'. rewrite Ht. cbn [trace ticks blocks List.length seq fold_left].
    rewrite <- app_assoc.
    assert (He : elapsed_at env k
                 = Fp.sub Fp.binary64 (now env (S (ticks w))) (now env (ticks w))).
    { unfold elapsed_at.
      replace (2 * k + 2) with (S (ticks w)) by lia.
      replace (2 * k + 1) with (ticks w) by lia. reflexivity. }
    rewrite He.
    replace (S (S (ticks w)) + 2 * List.length rest)
      with (ticks w + 2 * S (List.length rest)) by lia.
    reflexivity.
Qed.

(** The run from the start: what [main] returns, the whole trace, and the
    number of clock readings. *)
Lemma main_value (cfg : Config) (env : Env) (argv : list string) :
  main cfg env argv start_world =
  (0%Z,
   mkWorld (opening argv
            ++ EvClock (now env 0)
            :: blocks cfg env 1 (input_of env argv)
            ++ [EvStderr (done_line cfg env (List.length (input_of env argv)))])
           (1 + 2 * List.length (input_of env argv))).
Proof.
  unfold main, input_of, opening, done_line, reported_time.
  destruct (argc argv =? 2)%Z.
  - unfold InputReader.from_file, Chronos.create, read_clock.
    unfold bind at 1 2 3 4. simpl.
    unfold bind at 1.
    match goal with
    | |- context [for_each ?l ?b (?c, ?ct) ?w] =>
        destruct (for_each_value cfg env l 0 c ct w eq_refl) as [s' Hs]
    end.
    unfold InputReader.testcases in *. simpl in *.
    rewrite Hs. unfold bind, emit, ret. simpl. reflexivity.
  - unfold Chronos.create, read_clock.
    unfold bind at 1 2 3. simpl.
    unfold bind at 1.
    match goal with
    | |- context [for_each ?l ?b (?c, ?ct) ?w] =>
        destruct (for_each_value cfg env l 0 c ct w eq_refl) as [s' Hs]
    end.
    unfold InputReader.testcases in *. simpl in *.
    rewrite Hs. unfold bind, emit, ret. simpl. reflexivity.
Qed.

Lemma run_value (cfg : Config) (env : Env) (argv : list string) :
  run cfg env argv =
  opening argv
  ++ EvClock (now env 0)
  :: blocks cfg env 1 (input_of env argv)
  ++ [EvStderr (done_line cfg env (List.length (input_of env argv)))].
Proof. unfold run. rewrite main_value. reflexivity. Qed.

Lemma stderr_of_app (a b : list event) :
  stderr_of (a ++ b) = stderr_of a ++ stderr_of b.
Proof. apply flat_map_app. Qed.

Lemma stderr_of_engine_events (rs : list (precision * Testcase)) :
  stderr_of (map (fun r => EvEngine (fst r) (snd r)) rs) = [].
Proof. induction rs as [|r rs IH]; simpl; [reflexivity|exact IH]. Qed.

Lemma stderr_of_blocks (cfg : Config) (env : Env) (tcs : list Testcase) :
  forall n, stderr_of (blocks cfg env n tcs) = [].
Proof.
  induction tcs as [|tc rest IH]; intros n; [reflexivity|].
  cbn [blocks]. rewrite stderr_of_app, IH, app_nil_r.
  unfold block. change (stderr_of (?e :: ?l)) with (stderr_of l).
  rewrite stderr_of_app, stderr_of_engine_events. reflexivity.
Qed.

Lemma stderr_of_opening (argv : list string) : stderr_of (opening argv) = [].
Proof. unfold opening. destruct (argc argv =? 2)%Z; reflexivity. Qed.

Lemma from_file_calls_of_opening (argv : list string) :
  from_file_calls (opening argv)
  = if (argc argv =? 2)%Z then [nth 1 argv ""] else [].
Proof. unfold opening. destruct (argc argv =? 2)%Z; reflexivity. Qed.

(** ** What the driver reports on [cerr] *)

(** X1.  The run writes to [cerr] exactly once: the text "done in",
    the accumulated time and "ms".  The accumulated time starts from 0
    and adds, testcase after testcase and in [double], the time between
    the reset of the stopwatch and the reading taken right after
    [calculate]. *)
Theorem cerr_reports_accumulated_time
        (cfg : Config) (env : Env) (argv : list string) :
  stderr_of (run cfg env argv)
  = [("done in "
      ++ show_double cfg
           (fold_left
              (fun acc k =>
                 Fp.add Fp.binary64 acc
                        (Fp.sub Fp.binary64 (now env (2 * k + 2))
                                (now env (2 * k + 1))))
              (seq 0 (List.length (input_of env argv))) Fp.zero)
      ++ "ms" ++ endl)%string].
Proof.
  rewrite run_value, stderr_of_app, stderr_of_opening.
  change (stderr_of (EvClock ?c :: ?l)) with (stderr_of l).
  rewrite stderr_of_app, stderr_of_blocks. reflexivity.
Qed.

(** X3.  When the reader yields no testcase the run starts the stopwatch
    and reports a time of zero: nothing is computed and nothing is
    written to [cout]. *)
Theorem run_on_empty_input (cfg : Config) (env : Env) (argv : list string) :
  input_of env argv = [] ->
  run cfg env argv
  = opening argv
    ++ [EvClock (now env 0);
        EvStderr ("done in " ++ show_double cfg Fp.zero ++ "ms" ++ endl)].
Proof.
  intros Hin. rewrite run_value, Hin. reflexivity.
Qed.

(** X4.  The [from_file] call, when there is one, is the first thing the
    run does and the write to [cerr] is the last: every clock reading,
    engine run and write to [cout] lies between them. *)
Theorem from_file_first_cerr_last
        (cfg : Config) (env : Env) (argv : list string) :
  exists body line,
    run cfg env argv = opening argv ++ body ++ [EvStderr line]
    /\ from_file_calls body = []
    /\ stderr_of body = []
    /\ stdout_of body = stdout_of (run cfg env argv)
    /\ engine_runs body = engine_runs (run cfg env argv).
Proof.
  exists (EvClock (now env 0) :: blocks cfg env 1 (input_of env argv)).
  exists (done_line cfg env (List.length (input_of env argv))).
  split; [|split; [|split; [|split]]].
  - rewrite run_value. reflexivity.
  - change (from_file_calls (EvClock ?c :: ?l)) with (from_file_calls l).
    apply from_file_calls_of_blocks.
  - change (stderr_of (EvClock ?c :: ?l)) with (stderr_of l).
    apply stderr_of_blocks.
  - rewrite stdout_of_run.
    change (stdout_of (EvClock ?c :: ?l)) with (stdout_of l).
    apply stdout_of_blocks.
  - rewrite engine_runs_of_run.
    change (engine_runs (EvClock ?c :: ?l)) with (engine_runs l).
    apply engine_runs_of_blocks.
Qed.

(** ** What the stopwatch measures *)

Lemma blocks_at (cfg : Config) (env : Env) (tcs : list Testcase)
      (n k : nat) (tc : Testcase) :
  nth_error tcs k = Some tc ->
  blocks cfg env n tcs
  = blocks cfg env n (firstn k tcs)
    ++ block cfg env (n + 2 * k) tc
    ++ blocks cfg env (S (S (n + 2 * k))) (skipn (S k) tcs).
Proof.
  intros Hk.
  assert (Hlen : List.length (firstn k tcs) = k).
  { apply firstn_length_le.
    assert (k < List.length tcs) by (apply nth_error_Some; congruence). lia. }
  rewrite <- (firstn_skipn k tcs) at 1.
  rewrite blocks_app, Hlen, (skipn_cons tcs k tc Hk). reflexivity.
Qed.

(** X5.  For the testcase at index [k] the stopwatch is reset (clock
    reading [2k+1]) right before the engine runs of that testcase and
    read again (clock reading [2k+2]) right after them; the line of the
    testcase is written only then.  Writing results is not timed. *)
Theorem stopwatch_encloses_calculate_only
        (cfg : Config) (env : Env) (argv : list string)
        (k : nat) (tc : Testcase) :
  nth_error (input_of env argv) k = Some tc ->
  exists before after,
    run cfg env argv
    = before
      ++ EvClock (now env (2 * k + 1))
      :: map (fun r => EvEngine (fst r) (snd r)) (runs_of cfg tc)
      ++ EvClock (now env (2 * k + 2))
      :: EvStdout (line_of cfg tc)
      :: after.
Proof.
  intros Hk. rewrite run_value.
  rewrite (blocks_at cfg env (input_of env argv) 1 k tc Hk).
  exists (opening argv
          ++ EvClock (now env 0)
          :: blocks cfg env 1 (firstn k (input_of env argv))).
  exists (blocks cfg env (S (S (1 + 2 * k))) (skipn (S k) (input_of env argv))
          ++ [EvStderr (done_line cfg env (List.length (input_of env argv)))]).
  unfold block.
  replace (1 + 2 * k) with (2 * k + 1) by lia.
  replace (S (2 * k + 1)) with (2 * k + 2) by lia.
  rewrite <- !app_assoc. cbn [app]. rewrite <- !app_assoc. reflexivity.
Qed.

(** ** The command line *)

(** X6.  With [argc] equal to 2 the run depends on the command line only
    through [argv[1]]: the program name in [argv[0]] plays no part. *)
Theorem only_first_argument_matters
        (cfg : Config) (env : Env) (argv argv' : list string) :
  argc argv = 2%Z ->
  argc argv' = 2%Z ->
  nth 1 argv "" = nth 1 argv' "" ->
  run cfg env argv = run cfg env argv'.
Proof.
  intros H H' Hp. rewrite !run_value. unfold opening, input_of.
  rewrite H, H', Hp. reflexivity.
Qed.

(** ** The additional theorems at concrete inputs *)

Lemma run_on_empty_input_witness :
  input_of Fixture.env ["pairhmm"; "missing.txt"] = []
  /\ run Fixture.cfg Fixture.env ["pairhmm"; "missing.txt"]
     = opening ["pairhmm"; "missing.txt"]
       ++ [EvClock (now Fixture.env 0);
           EvStderr ("done in " ++ show_double Fixture.cfg Fp.zero
                     ++ "ms" ++ endl)].
Proof.
  assert (Hin : input_of Fixture.env ["pairhmm"; "missing.txt"] = [])
    by reflexivity.
  split; [exact Hin|].
  apply (run_on_empty_input Fixture.cfg Fixture.env
                            ["pairhmm"; "missing.txt"] Hin).
Defined.

Lemma stopwatch_encloses_calculate_only_witness :
  nth_error (input_of Fixture.env ["pairhmm"]) 1 = Some Fixture.mismatch
  /\ exists before after,
       run Fixture.cfg Fixture.env ["pairhmm"]
       = before
         ++ EvClock (now Fixture.env (2 * 1 + 1))
         :: map (fun r => EvEngine (fst r) (snd r))
                (runs_of Fixture.cfg Fixture.mismatch)
         ++ EvClock (now Fixture.env (2 * 1 + 2))
         :: EvStdout (line_of Fixture.cfg Fixture.mismatch)
         :: after.
Proof.
  assert (Hk : nth_error (input_of Fixture.env ["pairhmm"]) 1
               = Some Fixture.mismatch) by reflexivity.
  split; [exact Hk|].
  apply (stopwatch_encloses_calculate_only
           Fixture.cfg Fixture.env ["pairhmm"] 1 Fixture.mismatch Hk).
Defined.

Lemma only_first_argument_matters_witness :
  argc ["pairhmm"; "reads.txt"] = 2%Z
  /\ argc ["./bin/pairhmm"; "reads.txt"] = 2%Z
  /\ nth 1 ["pairhmm"; "reads.txt"] "" = nth 1 ["./bin/pairhmm"; "reads.txt"] ""
  /\ run Fixture.cfg Fixture.env ["pairhmm"; "reads.txt"]
     = run Fixture.cfg Fixture.env ["./bin/pairhmm"; "reads.txt"].
Proof.
  assert (H : argc ["pairhmm"; "reads.txt"] = 2%Z) by reflexivity.
  assert (H' : argc ["./bin/pairhmm"; "reads.txt"] = 2%Z) by reflexivity.
  assert (Hp : nth 1 ["pairhmm"; "reads.txt"] ""
               = nth 1 ["./bin/pairhmm"; "reads.txt"] "") by reflexivity.
  split; [exact H|]. split; [exact H'|]. split; [exact Hp|].
  apply (only_first_argument_matters
           Fixture.cfg Fixture.env ["pairhmm"; "reads.txt"]
           ["./bin/pairhmm"; "reads.txt"] H H' Hp).
Defined.
